(** * Local harness of the YouTube connector (youtube/tester.youtube.js)

    A shallow embedding of the harness and the properties of its three
    moving parts:

    - the runtime shim's [setData] (log line of a keyed emission),
    - the interaction gate [promptUser] (a poll loop raced against the
      Enter key),
    - the result capture promise of the main function, and what the main
      function does with the captured [result] (console, output file,
      exit code).

    The harness is event-loop code.  Each callback the harness registers is
    embedded as a function on an explicit state, and a run is the list of
    callbacks the event loop dispatches, in dispatch order.

    Data.  JavaScript values are modelled as plain data: [undefined],
    [null], booleans, integer-valued numbers, strings (lists of UTF-16 code
    units) and finite arrays and objects (own enumerable properties, in
    enumeration order).  Values with behaviour of their own (functions,
    symbols, BigInt, getters, [toJSON], proxies, cyclic objects, thenables)
    are outside the model. *)

From Stdlib Require Import List ZArith NArith Bool Lia String Ascii Decimal.
Import ListNotations.

Set Warnings "-register-all".

(* ================================================================== *)
(** * JavaScript data *)
(* ================================================================== *)

Module JS.

Local Open Scope N_scope.

(** A string is its sequence of UTF-16 code units; [s.length] is
    [List.length s] and [s.slice(0, n)] is [firstn n s]. *)
Definition jstr := list N.

(** A source literal made of ASCII characters only. *)
Definition lit (s : string) : jstr :=
  map N_of_ascii (list_ascii_of_string s).

Fixpoint jstr_eqb (a b : jstr) : bool :=
  match a, b with
  | [], [] => true
  | x :: a', y :: b' => (x =? y) && jstr_eqb a' b'
  | _, _ => false
  end.

(** [parts.join(sep)] on strings. *)
Fixpoint join (sep : jstr) (parts : list jstr) : jstr :=
  match parts with
  | [] => []
  | [p] => p
  | p :: rest => p ++ sep ++ join sep rest
  end.

Inductive value : Type :=
| VUndefined
| VNull
| VBool (b : bool)
| VNum (n : Z)
| VStr (s : jstr)
| VArr (items : list value)
| VObj (props : list (jstr * value)).

(** [typeof v] *)
Definition typeof (v : value) : jstr :=
  match v with
  | VUndefined => lit "undefined"
  | VNull => lit "object"
  | VBool _ => lit "boolean"
  | VNum _ => lit "number"
  | VStr _ => lit "string"
  | VArr _ => lit "object"
  | VObj _ => lit "object"
  end.

Definition is_null (v : value) : bool :=
  match v with VNull => true | _ => false end.

(** [v == null], that is [v] is [null] or [undefined]. *)
Definition nullish (v : value) : bool :=
  match v with VUndefined | VNull => true | _ => false end.

(** ToBoolean: what [if (v)], [!v], [a && b] and [a || b] test. *)
Definition truthy (v : value) : bool :=
  match v with
  | VUndefined => false
  | VNull => false
  | VBool b => b
  | VNum n => negb (Z.eqb n 0)
  | VStr s => match s with [] => false | _ => true end
  | VArr _ => true
  | VObj _ => true
  end.

Fixpoint lookup (k : jstr) (props : list (jstr * value)) : value :=
  match props with
  | [] => VUndefined
  | (k', v) :: rest => if jstr_eqb k k' then v else lookup k rest
  end.

(** [v.k] for a [v] that is neither [null] nor [undefined] and a name [k]
    that no prototype defines ([data], [message], [exportSummary], ...):
    the own property of an object, [undefined] otherwise.  Reading a
    property of [null] or [undefined] raises a TypeError; that case is
    handled where the harness reads a property without a guard
    ([message_of] below). *)
Definition get (v : value) (k : jstr) : value :=
  match v with
  | VObj props => lookup k props
  | _ => VUndefined
  end.

(** [a || b] and [a ?? b] *)
Definition or_else (a b : value) : value := if truthy a then a else b.
Definition coalesce (a b : value) : value := if nullish a then b else a.

(** ** Number and string conversion *)

Fixpoint uint_units (d : Decimal.uint) : jstr :=
  match d with
  | Nil => []
  | D0 d => 48 :: uint_units d
  | D1 d => 49 :: uint_units d
  | D2 d => 50 :: uint_units d
  | D3 d => 51 :: uint_units d
  | D4 d => 52 :: uint_units d
  | D5 d => 53 :: uint_units d
  | D6 d => 54 :: uint_units d
  | D7 d => 55 :: uint_units d
  | D8 d => 56 :: uint_units d
  | D9 d => 57 :: uint_units d
  end.

(** Number::toString for an integer that a JavaScript number holds
    exactly and prints in full: every integer up to 2^53 in absolute
    value.  (Beyond, JavaScript rounds the digits and, from 10^21 on,
    turns to exponent notation; such numbers, fractions, NaN, the
    infinities and the negative zero are outside the model.) *)
Definition num_to_string (n : Z) : jstr :=
  match Z.to_int n with
  | Decimal.Pos d => uint_units d
  | Decimal.Neg d => 45 :: uint_units d
  end.

(** ToString, as a template literal applies it: [`${v}`].  An array is
    its elements joined by commas, with [null] and [undefined] elements
    rendered empty; an object is [[object Object]]. *)
Fixpoint to_string (v : value) : jstr :=
  match v with
  | VUndefined => lit "undefined"
  | VNull => lit "null"
  | VBool true => lit "true"
  | VBool false => lit "false"
  | VNum n => num_to_string n
  | VStr s => s
  | VArr items =>
      join [44]
        ((fix elems (l : list value) : list jstr :=
            match l with
            | [] => []
            | x :: l' => (if nullish x then [] else to_string x) :: elems l'
            end) items)
  | VObj _ => lit "[object Object]"
  end.

(** ** JSON.stringify *)

Definition hex_digit (d : N) : N :=
  if d <? 10 then 48 + d else 87 + d.

(** UnicodeEscape: [\uXXXX] with lower-case hexadecimal digits. *)
Definition unicode_escape (c : N) : jstr :=
  [92; 117; hex_digit ((c / 4096) mod 16); hex_digit ((c / 256) mod 16);
   hex_digit ((c / 16) mod 16); hex_digit (c mod 16)].

Definition is_lead (c : N) : bool := (55296 <=? c) && (c <=? 56319).
Definition is_trail (c : N) : bool := (56320 <=? c) && (c <=? 57343).

(** The body of QuoteJSONString: the two-character escapes, [\uXXXX] for
    the other control characters and for lone surrogates, every other code
    point unchanged. *)
Fixpoint quote_units (s : jstr) : jstr :=
  match s with
  | [] => []
  | c :: rest =>
      if c =? 8 then [92; 98] ++ quote_units rest
      else if c =? 9 then [92; 116] ++ quote_units rest
      else if c =? 10 then [92; 110] ++ quote_units rest
      else if c =? 12 then [92; 102] ++ quote_units rest
      else if c =? 13 then [92; 114] ++ quote_units rest
      else if c =? 34 then [92; 34] ++ quote_units rest
      else if c =? 92 then [92; 92] ++ quote_units rest
      else if c <? 32 then unicode_escape c ++ quote_units rest
      else if is_lead c then
        match rest with
        | d :: rest' =>
            if is_trail d then c :: d :: quote_units rest'
            else unicode_escape c ++ quote_units rest
        | [] => unicode_escape c
        end
      else if is_trail c then unicode_escape c ++ quote_units rest
      else c :: quote_units rest
  end.

Definition quote (s : jstr) : jstr := [34] ++ quote_units s ++ [34].

(** SerializeJSONProperty with the accumulated indentation [indent] and
    the indentation unit [gap] ([gap] is empty for [JSON.stringify(v)] and
    two spaces for [JSON.stringify(v, null, 2)]).  [None] is the
    [undefined] that JSON.stringify returns for a value that has no JSON
    form: such a property is left out of an object and written [null] in
    an array. *)
Fixpoint serialize (gap indent : jstr) (v : value) : option jstr :=
  match v with
  | VUndefined => None
  | VNull => Some (lit "null")
  | VBool true => Some (lit "true")
  | VBool false => Some (lit "false")
  | VNum n => Some (num_to_string n)
  | VStr s => Some (quote s)
  | VArr items =>
      let inner := indent ++ gap in
      let partial :=
        (fix elems (l : list value) : list jstr :=
           match l with
           | [] => []
           | x :: l' =>
               match serialize gap inner x with
               | Some s => s
               | None => lit "null"
               end :: elems l'
           end) items in
      match partial with
      | [] => Some (lit "[]")
      | _ =>
          match gap with
          | [] => Some ([91] ++ join [44] partial ++ [93])
          | _ =>
              Some ([91; 10] ++ inner ++ join ([44; 10] ++ inner) partial
                      ++ [10] ++ indent ++ [93])
          end
      end
  | VObj props =>
      let inner := indent ++ gap in
      let partial :=
        (fix members (l : list (jstr * value)) : list jstr :=
           match l with
           | [] => []
           | (k, x) :: l' =>
               match serialize gap inner x with
               | Some s =>
                   (quote k ++ [58]
                      ++ match gap with [] => [] | _ => [32] end ++ s)
                     :: members l'
               | None => members l'
               end
           end) props in
      match partial with
      | [] => Some (lit "{}")
      | _ =>
          match gap with
          | [] => Some ([123] ++ join [44] partial ++ [125])
          | _ =>
              Some ([123; 10] ++ inner ++ join ([44; 10] ++ inner) partial
                      ++ [10] ++ indent ++ [125])
          end
      end
  end.

(** [JSON.stringify(v)] *)
Definition stringify (v : value) : option jstr := serialize [] [] v.

(** [JSON.stringify(v, null, 2)] *)
Definition stringify_pretty (v : value) : option jstr :=
  serialize [32; 32] [] v.

(** ** String.prototype.trim *)

(** The code units that [trim] strips: WhiteSpace and LineTerminator. *)
Definition is_space (c : N) : bool :=
  (c =? 9) || (c =? 10) || (c =? 11) || (c =? 12) || (c =? 13) || (c =? 32)
  || (c =? 160) || (c =? 5760) || ((8192 <=? c) && (c <=? 8202))
  || (c =? 8232) || (c =? 8233) || (c =? 8239) || (c =? 8287)
  || (c =? 12288) || (c =? 65279).

Fixpoint trim_start (s : jstr) : jstr :=
  match s with
  | [] => []
  | c :: rest => if is_space c then trim_start rest else s
  end.

Definition trim_end (s : jstr) : jstr := List.rev (trim_start (List.rev s)).

(** [s.trim()] *)
Definition trim (s : jstr) : jstr := trim_end (trim_start s).

End JS.

Import JS.

(* ================================================================== *)
(** * The console *)
(* ================================================================== *)

(** A console call is recorded with the arguments it was given;
    [console.log] writes to standard output, [console.error] and
    [console.warn] to standard error. *)
Inductive stream : Type := Out | Err.

Record entry : Type := Entry { chan : stream; args : list value }.

Definition console_log (s : jstr) : entry := Entry Out [VStr s].

(* ================================================================== *)
(** * The runtime shim: [createPageShim] *)
(* ================================================================== *)

Module Shim.

Local Open Scope nat_scope.

(** The character U+2026, the mark of a cut preview. *)
Definition ellipsis : jstr := [8230%N].

(** The text after [[setData] key: ].  [None] is the TypeError of
    [preview.length] when [JSON.stringify] returns [undefined]. *)
Definition display (value : value) : option jstr :=
  if jstr_eqb (typeof value) (lit "object") && negb (is_null value) then
    match stringify value with
    | Some preview =>
        Some (if 200 <? List.length preview
              then firstn 200 preview ++ ellipsis
              else preview)
    | None => None
    end
  else Some (to_string value).

(** [setData(key, value)]: the console line it writes, or [None] when it
    raises. *)
Definition setData (key value : value) : option entry :=
  match display value with
  | Some d =>
      Some (console_log (lit "[setData] " ++ to_string key ++ lit ": " ++ d))
  | None => None
  end.

(** The test of [setData]'s first branch: a non-null value of type
    [object], that is an array or an object. *)
Definition is_object (v : value) : bool :=
  jstr_eqb (typeof v) (lit "object") && negb (is_null v).

(** The cut of that branch: at most 200 characters and the ellipsis. *)
Definition cut (preview : jstr) : jstr :=
  if 200 <? List.length preview then firstn 200 preview ++ ellipsis else preview.

(** ** [setProgress] *)

(** The constant [phase] of [setProgress]. *)
Definition progress_phase (obj : value) : jstr :=
  if truthy (get obj (lit "phase")) then
    [91%N] ++ to_string (get (get obj (lit "phase")) (lit "step"))
      ++ [47%N] ++ to_string (get (get obj (lit "phase")) (lit "total"))
      ++ lit "] " ++ to_string (get (get obj (lit "phase")) (lit "label"))
  else [].

(** The constant [count] of [setProgress]. *)
Definition progress_count (obj : value) : jstr :=
  if negb (nullish (get obj (lit "count"))) then
    lit " (count: " ++ to_string (get obj (lit "count")) ++ [41%N]
  else [].

(** The template literal of [setProgress], before [trim]. *)
Definition progress_text (obj : value) : jstr :=
  lit "[progress] " ++ progress_phase obj ++ [32%N]
    ++ to_string (or_else (get obj (lit "message")) (VStr []))
    ++ progress_count obj.

(** [setProgress(obj)]: the console line it writes; [None] is the
    TypeError of [obj.phase] when [obj] is [null] or [undefined]. *)
Definition setProgress (obj : value) : option entry :=
  if nullish obj then None
  else Some (console_log (trim (progress_text obj))).

(** ** The interaction gate: [promptUser] *)

(** What one invocation of [callback] comes to, once awaited. *)
Inductive answer : Type := Truthy | Falsy | Raises.

(** What the event loop can deliver to the gate: a line on standard input,
    the settlement of the awaited [callback()], the firing of the timer
    armed by [setTimeout(poll, intervalMs)]. *)
Inductive gate_event : Type :=
| Enter
| Answer (a : answer)
| Tick.

(** Where the poll loop stands: awaiting [callback()], waiting for its
    timer (armed with the given delay), or ended. *)
Inductive phase : Type :=
| Calling
| Sleeping (ms : Z)
| Stopped.

(** Which of the two branches made the effective call of [resolve]. *)
Inductive trigger : Type := ByPoll | ByEnter.

Record gate : Type := Gate {
  done : bool;               (* the variable [done] *)
  settled : option trigger;  (* the returned promise: [None] while pending *)
  resumed : nat;             (* times the awaiting caller was resumed *)
  calls : nat;               (* invocations of [callback] so far *)
  listening : bool;          (* the [rl.once('line', ...)] listener is on *)
  loop : phase
}.

(** [resolve()] of the returned promise: only the first call settles it
    and resumes the caller. *)
Definition resolve (who : trigger) (g : gate) : gate :=
  match settled g with
  | None => Gate (done g) (Some who) (S (resumed g)) (calls g)
              (listening g) (loop g)
  | Some _ => g
  end.

Definition set_done (g : gate) : gate :=
  Gate true (settled g) (resumed g) (calls g) (listening g) (loop g).

Definition set_loop (p : phase) (g : gate) : gate :=
  Gate (done g) (settled g) (resumed g) (calls g) (listening g) p.

(** [poll] up to its [await]: nothing when [done], else [callback] is
    invoked. *)
Definition poll (g : gate) : gate :=
  if done g then set_loop Stopped g
  else Gate (done g) (settled g) (resumed g) (S (calls g)) (listening g)
         Calling.

(** [poll] from its [await] on. *)
Definition after_await (intervalMs : Z) (a : answer) (g : gate) : gate :=
  match a with
  | Truthy => set_loop Stopped (resolve ByPoll (set_done g))
  | Falsy | Raises =>
      if negb (done g) then set_loop (Sleeping intervalMs) g
      else set_loop Stopped g
  end.

(** The [then] callback of [waitForEnter()]; the listener is a [once]
    listener and the interface is closed behind it. *)
Definition on_enter (g : gate) : gate :=
  let g := Gate (done g) (settled g) (resumed g) (calls g) false (loop g) in
  if negb (done g) then resolve ByEnter (set_done g) else g.

Definition gate_step (intervalMs : Z) (g : gate) (e : gate_event) : gate :=
  match e with
  | Enter => if listening g then on_enter g else g
  | Answer a =>
      match loop g with
      | Calling => after_await intervalMs a g
      | _ => g
      end
  | Tick =>
      match loop g with
      | Sleeping _ => poll g
      | _ => g
      end
  end.

(** The four lines [promptUser] prints before it builds its promise. *)
Definition prompt_lines (message : value) : list entry :=
  [ console_log (10%N :: repeat 9472%N 45);
    console_log (lit "[promptUser] " ++ to_string message);
    console_log (lit "             Press Enter to continue once done, or wait for auto-detect.");
    console_log (repeat 9472%N 45 ++ [10%N]) ].

(** The promise executor of [promptUser]: [done = false], the Enter
    listener is installed, [poll()] is called. *)
Definition gate_start : gate :=
  poll (Gate false None 0 0 true Stopped).

(** The default of the parameter [intervalMs]. *)
Definition default_interval : Z := 2000.

(** [promptUser(message, callback, intervalMs)] up to the return of its
    promise: the lines printed, the gate as the executor leaves it, and
    the delay its timers will be armed with. *)
Definition promptUser (message : value) (intervalMs : option Z)
  : list entry * gate * Z :=
  (prompt_lines message, gate_start,
   match intervalMs with Some ms => ms | None => default_interval end).

(** The gate run on from an arbitrary state. *)
Definition gate_from (intervalMs : Z) (g : gate) (t : list gate_event) : gate :=
  fold_left (gate_step intervalMs) t g.

Definition gate_run (intervalMs : Z) (t : list gate_event) : gate :=
  gate_from intervalMs gate_start t.

(** ** Reading the gate *)

(** While the promise is pending, [done] is false, the Enter listener is
    on, the caller has not been resumed and the poll loop is alive; once
    it is settled, [done] is true and the caller was resumed once. *)
Definition gate_inv (g : gate) : Prop :=
  match settled g with
  | None => done g = false /\ listening g = true /\ resumed g = 0
            /\ loop g <> Stopped
  | Some _ => done g = true /\ resumed g = 1
  end.

(** The branch that an event makes win on a pending gate, if any: a line
    on standard input, or a truthy answer to the call in flight. *)
Definition settles (g : gate) (e : gate_event) : option trigger :=
  match e, loop g with
  | Enter, _ => Some ByEnter
  | Answer Truthy, Calling => Some ByPoll
  | _, _ => None
  end.

(** The predicate raised at every invocation answered in the trace. *)
Definition always_raises (t : list gate_event) : bool :=
  forallb (fun e => match e with
                    | Answer Truthy | Answer Falsy => false
                    | _ => true
                    end) t.

Definition has_enter (t : list gate_event) : bool :=
  existsb (fun e => match e with Enter => true | _ => false end) t.

(** An answer that does not resolve the gate. *)
Definition non_truthy (a : answer) : bool :=
  match a with Truthy => false | Falsy | Raises => true end.

(** The events of the polls that answer [l] in turn, each answer followed
    by the firing of the timer that starts the next poll. *)
Fixpoint rounds (l : list answer) : list gate_event :=
  match l with
  | [] => []
  | a :: l' => Answer a :: Tick :: rounds l'
  end.

(** [n] rounds of: the call in flight raises, the timer fires. *)
Fixpoint raise_rounds (n : nat) : list gate_event :=
  match n with
  | O => []
  | S n' => Answer Raises :: Tick :: raise_rounds n'
  end.


(** The predicate was truthy at no invocation answered in the trace. *)
Definition never_truthy (t : list gate_event) : bool :=
  forallb (fun e => match e with Answer Truthy => false | _ => true end) t.

(** A timer that is armed is armed with [intervalMs]. *)
Definition waits_interval (intervalMs : Z) (g : gate) : Prop :=
  match loop g with Sleeping d => d = intervalMs | _ => True end.

(** The number of timer firings in the trace. *)
Definition ticks (t : list gate_event) : nat :=
  List.length (filter (fun e => match e with Tick => true | _ => false end) t).

End Shim.

(* ================================================================== *)
(** * The result capture promise of the main function *)
(* ================================================================== *)

Module Coordinator.

(** What a connector can raise or reject with: an [Error] object, of
    which only the [message] matters here, or any other value. *)
Inductive thrown : Type :=
| ErrorObject (message : jstr)
| Thrown (v : value).

(** [err.message]; [None] is the TypeError of reading a property of
    [null] or [undefined]. *)
Definition message_of (err : thrown) : option value :=
  match err with
  | ErrorObject message => Some (VStr message)
  | Thrown v => if nullish v then None else Some (get v (lit "message"))
  end.

Inductive promise : Type :=
| Pending
| Fulfilled (v : value)
| Rejected (err : thrown).

(** The promise built by [new Promise((resolve, reject) => ...)] and the
    lines the shim has written to the console. *)
Record coordinator : Type := Coordinator {
  state : promise;
  console : list entry
}.

(** [resolve(v)] and [reject(err)]: only the first call on a pending
    promise has an effect. *)
Definition resolve (v : value) (c : coordinator) : coordinator :=
  match state c with
  | Pending => Coordinator (Fulfilled v) (console c)
  | _ => c
  end.

Definition reject (err : thrown) (c : coordinator) : coordinator :=
  match state c with
  | Pending => Coordinator (Rejected err) (console c)
  | _ => c
  end.

(** [key === 'result'] *)
Definition is_result_key (key : value) : bool :=
  match key with
  | VStr s => jstr_eqb s (lit "result")
  | _ => false
  end.

(** The function installed over [pageShim.setData]: the original
    [setData] first (if it raised, the test of the key would not be
    reached), then [resolve(value)] under the key ['result']. *)
Definition setData (key value : value) (c : coordinator) : coordinator :=
  match Shim.setData key value with
  | Some line =>
      let c := Coordinator (state c) (console c ++ [line]) in
      if is_result_key key then resolve value c else c
  | None => c
  end.

(** The [then] callback on the connector's promise:
    [if (r && r.data) resolve(r.data)]. *)
Definition on_return (r : value) (c : coordinator) : coordinator :=
  if truthy r && truthy (get r (lit "data"))
  then resolve (get r (lit "data")) c
  else c.

(** The delay of the safety timer, [30 * 60 * 1000] milliseconds. *)
Definition safety_timeout_ms : Z := 30 * 60 * 1000.

(** The timer callback: [resolve(null)]. *)
Definition on_timeout (c : coordinator) : coordinator := resolve VNull c.

(** What the event loop can deliver while the connector runs. *)
Inductive event : Type :=
| SetData (key value : value)  (* the connector calls [page.setData] *)
| Returned (r : value)         (* the connector's promise fulfils with [r] *)
| Threw (err : thrown)         (* [require] throws, or the connector's
                                  promise rejects: [reject(err)] *)
| Deadline.                    (* the safety timer fires *)

Definition step (c : coordinator) (e : event) : coordinator :=
  match e with
  | SetData key value => setData key value c
  | Returned r => on_return r c
  | Threw err => reject err c
  | Deadline => on_timeout c
  end.

Definition start : coordinator := Coordinator Pending [].

(** The promise run on from an arbitrary state. *)
Definition run_from (c : coordinator) (t : list event) : coordinator :=
  fold_left step t c.

Definition run (t : list event) : coordinator := run_from start t.

(** The variable [result] after the [try]/[catch] around the [await]:
    the fulfilment value, or [null] once the [catch] block has logged the
    error.  [None] while the promise is pending (the main function is
    suspended) and when the [catch] block itself raises on
    [err.message] (the assignment is not reached). *)
Definition outcome (t : list event) : option value :=
  match state (run t) with
  | Pending => None
  | Fulfilled v => Some v
  | Rejected err =>
      match message_of err with
      | Some _ => Some VNull
      | None => None
      end
  end.

(** ** Reading a run off its trace *)

(** The settlement an event asks for, whatever the promise's state. *)
Definition attempt (e : event) : option promise :=
  match e with
  | SetData key value =>
      match Shim.setData key value with
      | Some _ => if is_result_key key then Some (Fulfilled value) else None
      | None => None
      end
  | Returned r =>
      if truthy r && truthy (get r (lit "data"))
      then Some (Fulfilled (get r (lit "data")))
      else None
  | Threw err => Some (Rejected err)
  | Deadline => Some (Fulfilled VNull)
  end.

Definition fires (e : event) : bool :=
  match attempt e with Some _ => true | None => false end.

(** No event of the trace asks for a settlement. *)
Definition quiet (t : list event) : bool := forallb (fun e => negb (fires e)) t.

(** The first event of the trace that asks for a settlement. *)
Definition first_fire (t : list event) : option event := find fires t.

(** An explicit result or a valid fallback. *)
Definition is_signal (e : event) : bool :=
  match e with
  | SetData _ _ | Returned _ => fires e
  | _ => false
  end.

(** Every error of the trace is one whose [message] can be read. *)
Definition readable (e : event) : bool :=
  match e with
  | Threw err => match message_of err with Some _ => true | None => false end
  | _ => true
  end.


(** The console line an event leaves behind. *)
Definition event_lines (e : event) : list entry :=
  match e with
  | SetData key value =>
      match Shim.setData key value with
      | Some line => [line]
      | None => []
      end
  | _ => []
  end.

End Coordinator.

(* ================================================================== *)
(** * The main function after the [await] *)
(* ================================================================== *)

Module Main.

Import Coordinator.

(** What the process has done when it ends. *)
Record report : Type := Report {
  result : value;                  (* the variable [result] *)
  log : list entry;                (* console calls of the main function *)
  session_closed : bool;           (* [context.close()] has run *)
  file : option (jstr * jstr);     (* path and text given to writeFileSync *)
  code : Z                         (* exit code of the process *)
}.

Inductive ending : Type :=
| Waiting                (* the result promise is pending *)
| Uncaught (log : list entry)
                         (* a TypeError escapes the main function *)
| Exited (r : report).

Section Environment.

(** [process.cwd()] and [path.join]. *)
Variable cwd : jstr.
Variable path_join : jstr -> jstr -> jstr.

Definition outputPath : jstr := path_join cwd (lit "youtube-export.json").

Definition no_result_line : entry :=
  Entry Err [VStr (10%N :: lit "[harness] No result captured "
                     ++ [8212%N] ++ lit " check errors above.")].

Definition threw_line (message : value) : entry :=
  Entry Err [VStr (10%N :: lit "[harness] Connector threw an error:"); message].

Definition rule : jstr := repeat 9552%N 43.

Definition na : value := VStr (lit "n/a").

Definition summary_lines (summary : value) : list entry :=
  [ console_log (10%N :: rule);
    console_log (lit "  Export Summary");
    console_log rule;
    console_log (lit "  Profile:        "
                   ++ to_string (or_else (get summary (lit "profile")) na));
    console_log (lit "  Subscriptions:  "
                   ++ to_string (coalesce (get summary (lit "subscriptions")) na));
    console_log (lit "  Playlists:      "
                   ++ to_string (coalesce (get summary (lit "playlists")) na));
    console_log (lit "  Playlist items: "
                   ++ to_string (coalesce (get summary (lit "playlistItems")) na));
    console_log (lit "  Likes:          "
                   ++ to_string (coalesce (get summary (lit "likes")) na));
    console_log (lit "  Watch Later:    "
                   ++ to_string (coalesce (get summary (lit "watchLater")) na));
    console_log (lit "  History:        "
                   ++ to_string (coalesce (get summary (lit "history")) na));
    console_log (rule ++ [10%N]) ].

(** From [await context.close()] to the end, with the console calls
    [before] made so far.  [process.exit(1)] ends the process with code 1;
    reaching the end of the function lets it end with code 0. *)
Definition finish (before : list entry) (result : value) : ending :=
  if negb (truthy result) then
    Exited (Report result (before ++ [no_result_line]) true None 1)
  else
    let summary := or_else (get result (lit "exportSummary")) (VObj []) in
    match stringify_pretty result with
    | Some text =>
        Exited (Report result
                  (before ++ summary_lines summary
                     ++ [console_log (lit "[harness] Output written to: "
                                        ++ outputPath)])
                  true (Some (outputPath, text)) 0)
    | None => Uncaught (before ++ summary_lines summary)
    end.

(** The main function from the creation of the result promise on, for
    the callbacks [t] dispatched while the connector runs. *)
Definition harness (t : list event) : ending :=
  match state (run t) with
  | Pending => Waiting
  | Fulfilled v => finish [] v
  | Rejected err =>
      match message_of err with
      | Some message => finish [threw_line message] VNull
      | None => Uncaught []
      end
  end.

End Environment.

(** An environment and some values to run examples in: a POSIX
    [path.join] on a directory that needs no normalising (no trailing
    slash, no dots) and a file name, the key ['result'], the
    error [Error("boom")] and the payload
    [{ success: true, data: { exportSummary: { subscriptions: 12 } } }]. *)
Definition posix_join (dir name : jstr) : jstr := dir ++ 47%N :: name.

Definition home : jstr := lit "/home/user/connectors".

Definition result_key : value := VStr (lit "result").

Definition boom : thrown := ErrorObject (lit "boom").

Definition export12 : value :=
  VObj [(lit "exportSummary", VObj [(lit "subscriptions", VNum 12)])].

Definition payload12 : value :=
  VObj [(lit "success", VBool true); (lit "data", export12)].

Definition loading : event :=
  SetData (VStr (lit "progress")) (VObj [(lit "message", VStr (lit "loading"))]).


(** The summary block of a result without export summary. *)
Definition na_block : list entry :=
  [ console_log (10%N :: repeat 9552%N 43);
    console_log (lit "  Export Summary");
    console_log (repeat 9552%N 43);
    console_log (lit "  Profile:        n/a");
    console_log (lit "  Subscriptions:  n/a");
    console_log (lit "  Playlists:      n/a");
    console_log (lit "  Playlist items: n/a");
    console_log (lit "  Likes:          n/a");
    console_log (lit "  Watch Later:    n/a");
    console_log (lit "  History:        n/a");
    console_log (repeat 9552%N 43 ++ [10%N]) ].

End Main.

(* ================================================================== *)
(** * Properties of [setData] *)
(* ================================================================== *)

Section SetDataProps.

Import Shim.
Local Open Scope nat_scope.

Lemma is_object_shape (v : value) :
  is_object v = match v with VArr _ | VObj _ => true | _ => false end.
Proof. destruct v; reflexivity. Qed.

(** JSON.stringify returns a string for every array and object. *)
Lemma serialize_object (gap indent : jstr) (v : value) :
  is_object v = true -> exists s, serialize gap indent v = Some s.
Proof.
  rewrite is_object_shape.
  destruct v as [ | | b | n | s | items | props ]; try discriminate; intros _.
  - cbn [serialize].
    match goal with |- context [match ?p with [] => _ | _ :: _ => _ end] =>
      destruct p end; [ eauto | destruct gap; eauto ].
  - cbn [serialize].
    match goal with |- context [match ?p with [] => _ | _ :: _ => _ end] =>
      destruct p end; [ eauto | destruct gap; eauto ].
Qed.


Lemma cut_short (preview : jstr) :
  List.length preview <= 200 -> cut preview = preview.
Proof.
  intros H. unfold cut.
  destruct (Nat.ltb_spec 200 (List.length preview)); [ lia | reflexivity ].
Qed.

Lemma display_cases (v : value) :
  display v =
    if is_object v then option_map cut (stringify v) else Some (to_string v).
Proof.
  unfold display, is_object.
  destruct (jstr_eqb (typeof v) (lit "object") && negb (is_null v));
    [ | reflexivity ].
  destruct (stringify v); reflexivity.
Qed.

Lemma display_total (v : value) : exists d, display v = Some d.
Proof.
  rewrite display_cases. destruct (is_object v) eqn:E; [ | eauto ].
  destruct (serialize_object [] [] v E) as [s Hs].
  unfold stringify. rewrite Hs. cbn. eauto.
Qed.

End SetDataProps.



(** An object whose JSON text is longer than 200 characters is cut. *)
Example setData_long_array_cut :
  exists d,
    Shim.setData (VStr (lit "ids")) (VArr (repeat (VNum 7) 150))
      = Some (console_log (lit "[setData] ids: " ++ d))
    /\ List.length d = 201%nat /\ last d 0%N = 8230%N.
Proof. eexists. split; [ vm_compute; reflexivity | split; reflexivity ]. Qed.

(* ================================================================== *)
(** * Properties of the interaction gate *)
(* ================================================================== *)

Section GateProps.

Import Shim.
Local Open Scope nat_scope.

Variable intervalMs : Z.

Local Abbreviation gstep := (gate_step intervalMs).
Local Abbreviation grun := (gate_run intervalMs).
Local Abbreviation gate_from := (Shim.gate_from intervalMs).

Lemma gate_run_app (t u : list gate_event) :
  grun (t ++ u) = gate_from (grun t) u.
Proof. unfold gate_run, Shim.gate_from. apply fold_left_app. Qed.

Lemma gate_run_snoc (t : list gate_event) (e : gate_event) :
  grun (t ++ [e]) = gstep (grun t) e.
Proof. rewrite gate_run_app. reflexivity. Qed.

Lemma gate_inv_start : gate_inv gate_start.
Proof. cbv. repeat split; discriminate. Qed.

Lemma gate_inv_step (g : gate) (e : gate_event) :
  gate_inv g -> gate_inv (gstep g e).
Proof.
  destruct g as [d s r c l p]. unfold gate_inv. cbn.
  destruct s as [w | ]; cbn; intros H.
  - destruct H as [-> ->].
    destruct e as [ | [ | | ] | ]; destruct l, p; cbn; auto.
  - destruct H as (-> & -> & -> & Hp).
    destruct e as [ | [ | | ] | ]; destruct p; cbn;
      repeat split; try congruence; try discriminate.
Qed.

Lemma gate_inv_from (t : list gate_event) (g : gate) :
  gate_inv g -> gate_inv (gate_from g t).
Proof.
  revert g. induction t as [ | e t IH]; intros g H; [ exact H | ].
  cbn. apply IH, gate_inv_step, H.
Qed.

Lemma gate_inv_run (t : list gate_event) : gate_inv (grun t).
Proof. apply gate_inv_from, gate_inv_start. Qed.

(** A settled gate stays as it is settled. *)
Lemma settled_step (g : gate) (e : gate_event) (w : trigger) :
  settled g = Some w -> settled (gstep g e) = Some w.
Proof.
  destruct g as [d s r c l p]. cbn. intros ->.
  destruct e as [ | [ | | ] | ]; destruct l, p, d; reflexivity.
Qed.

Lemma settled_from (t : list gate_event) (g : gate) (w : trigger) :
  settled g = Some w -> settled (gate_from g t) = Some w.
Proof.
  revert g. induction t as [ | e t IH]; intros g H; [ exact H | ].
  cbn. apply IH, settled_step, H.
Qed.

Lemma pending_step (g : gate) (e : gate_event) :
  gate_inv g -> settled g = None -> settled (gstep g e) = settles g e.
Proof.
  destruct g as [d s r c l p]. unfold gate_inv. cbn. intros H ->.
  destruct H as (-> & -> & -> & Hp).
  destruct e as [ | [ | | ] | ]; destruct p; reflexivity.
Qed.

Lemma resumed_settled (t : list gate_event) :
  resumed (grun t) = match settled (grun t) with None => 0 | Some _ => 1 end.
Proof.
  pose proof (gate_inv_run t) as H. unfold gate_inv in H.
  destruct (settled (grun t)); tauto.
Qed.

(** Every run of the gate either never resolves, no event of it being a
    trigger, or has one event that resolves it. *)
Lemma gate_trace_cases (t : list gate_event) :
  (settled (grun t) = None /\ resumed (grun t) = 0)
  \/ (exists pre e post w,
        t = pre ++ e :: post /\ settled (grun pre) = None
        /\ settles (grun pre) e = Some w
        /\ settled (grun t) = Some w /\ resumed (grun t) = 1).
Proof.
  induction t as [ | e t IH] using rev_ind.
  - left. split; reflexivity.
  - destruct IH as [[Hs Hr] | (pre & e0 & post & w & -> & Hp & Ht & Hs & Hr)].
    + pose proof (pending_step _ e (gate_inv_run t) Hs) as He.
      destruct (settles (grun t) e) as [w | ] eqn:E.
      * right. exists t, e, [], w.
        rewrite (resumed_settled (t ++ [e])), gate_run_snoc, He.
        repeat split; assumption.
      * left. rewrite (resumed_settled (t ++ [e])), gate_run_snoc, He.
        split; reflexivity.
    + right. exists pre, e0, (post ++ [e]), w.
      rewrite (resumed_settled ((pre ++ e0 :: post) ++ [e])), gate_run_snoc.
      rewrite (settled_step _ e w Hs).
      repeat split; try assumption.
      rewrite <- app_assoc. reflexivity.
Qed.

(** From any pending point of any run: an event that [settles] resolves
    the gate for good, any other leaves it pending. *)
Lemma gate_next_event (pre post : list gate_event) (e : gate_event) :
  settled (grun pre) = None ->
  match settles (grun pre) e with
  | Some w =>
      settled (grun (pre ++ e :: post)) = Some w
      /\ resumed (grun (pre ++ e :: post)) = 1
  | None =>
      settled (grun (pre ++ [e])) = None
      /\ resumed (grun (pre ++ [e])) = 0
  end.
Proof.
  intros Hp.
  pose proof (pending_step _ e (gate_inv_run pre) Hp) as He.
  destruct (settles (grun pre) e) as [w | ].
  - assert (Hs : settled (grun (pre ++ e :: post)) = Some w).
    { rewrite gate_run_app. cbn. apply settled_from, He. }
    split; [ exact Hs | ].
    rewrite resumed_settled, Hs. reflexivity.
  - rewrite resumed_settled, gate_run_snoc, He. split; reflexivity.
Qed.

Lemma rounds_from (l : list answer) (c : nat) :
  forallb non_truthy l = true ->
  gate_from (Gate false None 0 c true Calling) (rounds l)
    = Gate false None 0 (List.length l + c) true Calling.
Proof.
  revert c. induction l as [ | a l IH]; intros c H; [ reflexivity | ].
  cbn [forallb] in H. apply andb_true_iff in H as [Ha Hl].
  cbn [rounds List.length].
  change (gate_from (Gate false None 0 c true Calling)
            (Answer a :: Tick :: rounds l))
    with (gate_from
            (gstep (gstep (Gate false None 0 c true Calling) (Answer a)) Tick)
            (rounds l)).
  assert (E : gstep (gstep (Gate false None 0 c true Calling) (Answer a)) Tick
              = Gate false None 0 (S c) true Calling).
  { destruct a; [ discriminate | reflexivity | reflexivity ]. }
  rewrite E, (IH (S c) Hl). f_equal. lia.
Qed.

Lemma rounds_run (l : list answer) :
  forallb non_truthy l = true ->
  grun (rounds l) = Gate false None 0 (S (List.length l)) true Calling.
Proof.
  intros H. unfold gate_run, gate_start. cbn [poll done settled resumed calls listening].
  rewrite (rounds_from l 1 H). f_equal. lia.
Qed.

Lemma resolved_for_good (t u : list gate_event) (w : trigger) :
  settled (grun t) = Some w ->
  settled (grun (t ++ u)) = Some w /\ resumed (grun (t ++ u)) = 1.
Proof.
  intros H.
  assert (Hs : settled (grun (t ++ u)) = Some w).
  { rewrite gate_run_app. apply settled_from, H. }
  split; [ exact Hs | ]. rewrite resumed_settled, Hs. reflexivity.
Qed.

(** C6.  Let the predicate answer [l], never truthy, poll after poll.
    The gate is then pending, the caller not resumed, with call number
    [length l + 1] in flight.  From there, whichever trigger comes first
    resolves the gate: a truthy answer to that call resolves it by the
    poll; a line entered while that call is in flight resolves it by the
    line; a line entered during the wait that follows a further
    non-truthy answer [a] resolves it by the line; and with no trigger
    the gate stays pending.  In each case, whatever events [u] follow
    (truthy answers, lines, timers), the winner stays and the caller has
    been resumed exactly once.  The caller is resumed at most once in
    any run whatever. *)
Theorem gate_resolves_once
    (l : list answer) (a : answer) (u : list gate_event) :
  forallb non_truthy l = true ->
  non_truthy a = true ->
  grun (rounds l) = Gate false None 0 (S (List.length l)) true Calling
  /\ (settled (grun (rounds l ++ Answer Truthy :: u)) = Some ByPoll
      /\ resumed (grun (rounds l ++ Answer Truthy :: u)) = 1)
  /\ (settled (grun (rounds l ++ Enter :: u)) = Some ByEnter
      /\ resumed (grun (rounds l ++ Enter :: u)) = 1)
  /\ (settled (grun (rounds l ++ Answer a :: Enter :: u)) = Some ByEnter
      /\ resumed (grun (rounds l ++ Answer a :: Enter :: u)) = 1)
  /\ (settled (grun (rounds l ++ [Answer a])) = None
      /\ resumed (grun (rounds l ++ [Answer a])) = 0)
  /\ resumed (grun u) <= 1.
Proof.
  intros Hl Ha.
  pose proof (rounds_run l Hl) as R.
  split; [ exact R | ].
  split; [ | split; [ | split; [ | split ] ] ].
  - change (Answer Truthy :: u) with ([Answer Truthy] ++ u).
    rewrite app_assoc. apply resolved_for_good.
    rewrite gate_run_snoc, R. reflexivity.
  - change (Enter :: u) with ([Enter] ++ u).
    rewrite app_assoc. apply resolved_for_good.
    rewrite gate_run_snoc, R. reflexivity.
  - change (Answer a :: Enter :: u) with ([Answer a; Enter] ++ u).
    rewrite app_assoc. apply resolved_for_good.
    change [Answer a; Enter] with ([Answer a] ++ [Enter]).
    rewrite app_assoc, !gate_run_snoc, R.
    destruct a; [ discriminate | reflexivity | reflexivity ].
  - rewrite resumed_settled, gate_run_snoc, R.
    destruct a; [ discriminate | split; reflexivity | split; reflexivity ].
  - rewrite resumed_settled. destruct (settled (grun u)); lia.
Qed.

Lemma raise_rounds_from (n c : nat) :
  gate_from (Gate false None 0 c true Calling) (raise_rounds n)
    = Gate false None 0 (n + c) true Calling.
Proof.
  revert c. induction n as [ | n IH]; intros c; [ reflexivity | ].
  cbn [raise_rounds]. unfold Shim.gate_from in *. cbn. rewrite IH.
  f_equal. lia.
Qed.

Lemma raises_from (t : list gate_event) (g : gate) :
  gate_inv g -> always_raises t = true ->
  settled (gate_from g t)
    = match settled g with
      | Some w => Some w
      | None => if has_enter t then Some ByEnter else None
      end.
Proof.
  revert g. induction t as [ | e t IH]; intros g Hi Ha.
  - cbn. destruct (settled g); reflexivity.
  - cbn in Ha. apply andb_true_iff in Ha as [He Ha].
    change (gate_from g (e :: t)) with (gate_from (gstep g e) t).
    rewrite (IH _ (gate_inv_step g e Hi) Ha).
    destruct (settled g) as [w | ] eqn:Hs.
    + rewrite (settled_step g e w Hs). reflexivity.
    + rewrite (pending_step g e Hi Hs).
      destruct e as [ | [ | | ] | ]; try discriminate; cbn;
        try reflexivity; destruct (loop g); reflexivity.
Qed.

(** C5.  A raising call is swallowed: on a pending gate it changes
    nothing but the loop, which waits [intervalMs] for its next turn; [n]
    raising calls in a row leave the gate pending with call [n + 1] in
    flight.  When the predicate raises at every invocation, the gate is
    never resolved by the poll loop: it is resolved exactly when a line
    was entered, and then by that line. *)
Theorem gate_raising_predicate
    (t : list gate_event) (H : always_raises t = true) :
  settled (grun t) = (if has_enter t then Some ByEnter else None)
  /\ (forall g, loop g = Calling -> done g = false ->
        gstep g (Answer Raises) = set_loop (Sleeping intervalMs) g)
  /\ (forall n, grun (raise_rounds n) = Gate false None 0 (S n) true Calling).
Proof.
  split; [ | split ].
  - unfold gate_run. rewrite (raises_from t gate_start gate_inv_start H).
    reflexivity.
  - intros g Hl Hd. unfold gate_step, after_await. rewrite Hl, Hd. reflexivity.
  - intros n. unfold gate_run, gate_start. cbn [poll done settled resumed calls listening].
    rewrite raise_rounds_from. f_equal. lia.
Qed.

End GateProps.

(** The gate at work: the predicate is falsy, then raises, then is
    truthy at its third call; the line entered afterwards, the timer and
    a further truthy answer come too late. *)
Lemma gate_resolves_once_witness :
  forallb Shim.non_truthy [Shim.Falsy; Shim.Raises] = true
  /\ Shim.non_truthy Shim.Falsy = true
  /\ Shim.settled (Shim.gate_run 2000
       (Shim.rounds [Shim.Falsy; Shim.Raises]
          ++ Shim.Answer Shim.Truthy
               :: [Shim.Enter; Shim.Tick; Shim.Answer Shim.Truthy]))
     = Some Shim.ByPoll
  /\ Shim.resumed (Shim.gate_run 2000
       (Shim.rounds [Shim.Falsy; Shim.Raises]
          ++ Shim.Answer Shim.Truthy
               :: [Shim.Enter; Shim.Tick; Shim.Answer Shim.Truthy]))
     = 1%nat.
Proof.
  split; [ reflexivity | split; [ reflexivity | ] ].
  exact (proj1 (proj2
           (gate_resolves_once 2000 [Shim.Falsy; Shim.Raises] Shim.Falsy
              [Shim.Enter; Shim.Tick; Shim.Answer Shim.Truthy]
              eq_refl eq_refl))).
Defined.

(** A line entered while the third call is in flight wins over the
    truthy answer that the call then gives. *)
Example gate_enter_during_call :
  Shim.gate_run 2000
    (Shim.rounds [Shim.Raises; Shim.Raises]
       ++ Shim.Enter :: [Shim.Answer Shim.Truthy; Shim.Enter])
  = Shim.Gate true (Some Shim.ByEnter) 1 3 false Shim.Stopped.
Proof. reflexivity. Qed.

Lemma gate_raising_predicate_witness :
  Shim.always_raises
    [Shim.Answer Shim.Raises; Shim.Tick; Shim.Answer Shim.Raises; Shim.Enter]
    = true
  /\ Shim.settled (Shim.gate_run 50
       [Shim.Answer Shim.Raises; Shim.Tick; Shim.Answer Shim.Raises; Shim.Enter])
     = Some Shim.ByEnter.
Proof.
  split; [ reflexivity | ].
  exact (proj1 (gate_raising_predicate 50
     [Shim.Answer Shim.Raises; Shim.Tick; Shim.Answer Shim.Raises; Shim.Enter]
     eq_refl)).
Defined.

(** A truthy answer resolves the gate; the line entered afterwards finds
    [done] set. *)
Example gate_poll_first :
  Shim.gate_run 2000
    [Shim.Answer Shim.Falsy; Shim.Tick; Shim.Answer Shim.Truthy; Shim.Enter]
  = Shim.Gate true (Some Shim.ByPoll) 1 2 false Shim.Stopped.
Proof. reflexivity. Qed.

(** A predicate that is never truthy, polled every 50 ms, and a line
    entered during the third wait: the gate resolves on the line, and the
    timer that fires afterwards calls the predicate no more. *)
Example gate_enter_during_wait :
  Shim.gate_run 50
    [Shim.Answer Shim.Falsy; Shim.Tick; Shim.Answer Shim.Falsy; Shim.Tick;
     Shim.Answer Shim.Falsy; Shim.Enter; Shim.Tick]
  = Shim.Gate true (Some Shim.ByEnter) 1 3 false Shim.Stopped.
Proof. reflexivity. Qed.

(* ================================================================== *)
(** * Properties of the result capture promise *)
(* ================================================================== *)

Section CoordinatorProps.

Import Coordinator.

Lemma setData_total (key value : value) :
  exists line, Shim.setData key value = Some line.
Proof.
  destruct (display_total value) as [d Hd].
  unfold Shim.setData. rewrite Hd. eauto.
Qed.

Lemma attempt_settles (e : event) (p : promise) :
  attempt e = Some p -> p <> Pending.
Proof.
  destruct e as [key value | r | err | ]; unfold attempt.
  - destruct (Shim.setData key value); [ | discriminate ].
    destruct (is_result_key key); [ | discriminate ].
    intros [= <-]. discriminate.
  - destruct (truthy r && truthy (get r (lit "data"))); [ | discriminate ].
    intros [= <-]. discriminate.
  - intros [= <-]. discriminate.
  - intros [= <-]. discriminate.
Qed.

(** One step: a pending promise takes the settlement the event asks for,
    a settled one keeps its own. *)
Lemma step_state (c : coordinator) (e : event) :
  state (step c e)
    = match state c with
      | Pending => match attempt e with Some p => p | None => Pending end
      | s => s
      end.
Proof.
  destruct c as [s l].
  destruct e as [key value | r | err | ]; unfold step, attempt.
  - unfold Coordinator.setData.
    destruct (Shim.setData key value) as [line | ]; cbn.
    + destruct (is_result_key key); cbn; destruct s; reflexivity.
    + destruct s; reflexivity.
  - unfold on_return.
    destruct (truthy r && truthy (get r (lit "data"))); cbn;
      destruct s; reflexivity.
  - destruct s; reflexivity.
  - destruct s; reflexivity.
Qed.

Lemma settled_run_from (t : list event) (c : coordinator) :
  state c <> Pending -> state (run_from c t) = state c.
Proof.
  revert c. induction t as [ | e t IH]; intros c H; [ reflexivity | ].
  change (run_from c (e :: t)) with (run_from (step c e) t).
  assert (E : state (step c e) = state c).
  { rewrite step_state. destruct (state c); congruence. }
  rewrite IH; congruence.
Qed.

(** The state after a trace depends on the state before it only. *)
Lemma run_from_state (t : list event) (c : coordinator) :
  state (run_from c t)
    = match state c with
      | Pending =>
          match first_fire t with
          | Some e => match attempt e with Some p => p | None => Pending end
          | None => Pending
          end
      | s => s
      end.
Proof.
  revert c. induction t as [ | e t IH]; intros c.
  - cbn. destruct (state c); reflexivity.
  - change (run_from c (e :: t)) with (run_from (step c e) t).
    destruct (state c) eqn:Hc.
    + unfold first_fire. cbn [find]. unfold fires at 1.
      destruct (attempt e) as [p | ] eqn:Ha.
      * rewrite Ha. rewrite settled_run_from.
        -- rewrite step_state, Hc, Ha. reflexivity.
        -- rewrite step_state, Hc, Ha. eapply attempt_settles, Ha.
      * rewrite IH. rewrite step_state, Hc, Ha. reflexivity.
    + rewrite settled_run_from; rewrite step_state, Hc; congruence.
    + rewrite settled_run_from; rewrite step_state, Hc; congruence.
Qed.

Lemma run_state (t : list event) :
  state (run t)
    = match first_fire t with
      | Some e => match attempt e with Some p => p | None => Pending end
      | None => Pending
      end.
Proof. unfold run. rewrite run_from_state. reflexivity. Qed.

Lemma run_app (t u : list event) : run (t ++ u) = run_from (run t) u.
Proof. unfold run, run_from. apply fold_left_app. Qed.

Lemma run_app_state (t u : list event) :
  state (run (t ++ u))
    = match state (run t) with Pending => state (run u) | s => s end.
Proof.
  rewrite run_app, run_from_state, <- run_state. reflexivity.
Qed.

Lemma quiet_first_fire (t : list event) :
  quiet t = true <-> first_fire t = None.
Proof.
  unfold quiet, first_fire. induction t as [ | e t IH]; cbn; [ tauto | ].
  destruct (fires e); cbn; [ | exact IH ].
  split; discriminate.
Qed.

Lemma first_fire_fires (t : list event) (e : event) :
  first_fire t = Some e -> exists p, attempt e = Some p /\ In e t.
Proof.
  unfold first_fire. intros H. apply find_some in H as [Hin Hf].
  unfold fires in Hf. destruct (attempt e) as [p | ]; [ eauto | discriminate ].
Qed.

(** Nothing has settled after a trace exactly when the trace is quiet. *)
Lemma quiet_pending (t : list event) :
  quiet t = true <-> state (run t) = Pending.
Proof.
  rewrite quiet_first_fire, run_state.
  destruct (first_fire t) as [e | ] eqn:E; [ | tauto ].
  destruct (first_fire_fires t e E) as (p & Ha & _). rewrite Ha.
  pose proof (attempt_settles e p Ha).
  split; [ discriminate | tauto ].
Qed.

(** After a quiet trace the next event decides. *)
Lemma quiet_then (pre post : list event) (e : event) :
  quiet pre = true ->
  state (run (pre ++ e :: post))
    = match attempt e with Some p => p | None => state (run post) end.
Proof.
  intros H. apply quiet_pending in H.
  rewrite run_app_state, H.
  change (e :: post) with ([e] ++ post).
  rewrite run_app_state. unfold run at 1. cbn [run_from fold_left].
  rewrite step_state. cbn [start state].
  destruct (attempt e) as [p | ] eqn:Ha; [ | reflexivity ].
  pose proof (attempt_settles e p Ha). destruct p; congruence.
Qed.

Lemma attempt_result (v : value) :
  attempt (SetData Main.result_key v) = Some (Fulfilled v).
Proof.
  unfold attempt. destruct (setData_total Main.result_key v) as [line ->].
  reflexivity.
Qed.

(** C1.  The promise settles at most once, and one event decides: the
    state after a run is the settlement asked for by the first event that
    asks for one (the value of the first [setData('result', v)], the
    [data] of the first valid completion value, [null] of the safety
    timer, or the rejection by a connector error), whatever the other
    events of the run are; and once a run has settled the promise, no
    continuation of the run changes its state or the outcome. *)
Theorem coordinator_settles_once (t u : list event) :
  match first_fire t with
  | None => state (run t) = Pending
  | Some (SetData _ v) => state (run t) = Fulfilled v
  | Some (Returned r) => state (run t) = Fulfilled (get r (lit "data"))
  | Some Deadline => state (run t) = Fulfilled VNull
  | Some (Threw err) => state (run t) = Rejected err
  end
  /\ state (run (t ++ u))
       = match state (run t) with Pending => state (run u) | s => s end
  /\ match state (run t) with
     | Pending => True
     | _ => outcome (t ++ u) = outcome t
     end.
Proof.
  split; [ | split ].
  - rewrite run_state.
    destruct (first_fire t) as [e | ] eqn:E; [ | reflexivity ].
    destruct (first_fire_fires t e E) as (p & Ha & _). rewrite Ha.
    destruct e as [key value | r | err | ]; unfold attempt in Ha.
    + destruct (Shim.setData key value); [ | discriminate ].
      destruct (is_result_key key); [ | discriminate ].
      congruence.
    + destruct (truthy r && truthy (get r (lit "data"))); [ | discriminate ].
      congruence.
    + congruence.
    + congruence.
  - apply run_app_state.
  - pose proof (run_app_state t u) as H. unfold outcome.
    destruct (state (run t)); [ exact I | | ]; rewrite H; reflexivity.
Qed.

(** C2, as amended.  When the connector calls [setData('result', V)]
    while the promise is still pending (nothing before the call asked for
    a settlement: no earlier result, no valid completion value, no
    connector error, no safety timer), the outcome is [V], whatever
    follows: later results, the completion value, the safety timer. *)
Theorem first_result_wins (pre post : list event) (V : value) :
  quiet pre = true ->
  outcome (pre ++ SetData Main.result_key V :: post) = Some V.
Proof.
  intros H. unfold outcome.
  rewrite (quiet_then pre post _ H), attempt_result. reflexivity.
Qed.

Lemma first_result_wins_witness :
  quiet [Main.loading] = true
  /\ outcome ([Main.loading]
                ++ SetData Main.result_key Main.payload12
                     :: [SetData Main.result_key VNull;
                         Returned (VObj [(lit "data", VNum 5)]); Deadline])
       = Some Main.payload12.
Proof.
  split; [ reflexivity | ].
  apply (first_result_wins [Main.loading]
           [SetData Main.result_key VNull;
            Returned (VObj [(lit "data", VNum 5)]); Deadline]
           Main.payload12).
  reflexivity.
Defined.

(** C2, as stated, fails: the connector calls [setData('result', V)] once,
    after the safety timer has fired, and the outcome is [null], not
    [V]. *)
Lemma result_after_deadline_is_lost :
  outcome [Deadline; SetData Main.result_key Main.payload12] = Some VNull
  /\ Some VNull <> Some Main.payload12.
Proof. split; [ reflexivity | discriminate ]. Qed.

(** The same after a fallback: the completion value came first. *)
Example result_after_fallback_is_lost :
  outcome [Returned Main.payload12; SetData Main.result_key (VNum 1)]
    = Some Main.export12.
Proof. reflexivity. Qed.

(** C3, as amended.  When the connector's promise fulfils with [r] while
    the result promise is still pending, the fallback fires exactly when
    [r] is truthy and [r.data] is truthy, and the outcome is then
    [r.data], whatever follows; [r.success] is not looked at.  For any
    other [r] the completion changes nothing. *)
Theorem fallback_on_truthy_data (pre post : list event) (r : value) :
  quiet pre = true ->
  if truthy r && truthy (get r (lit "data"))
  then outcome (pre ++ Returned r :: post) = Some (get r (lit "data"))
  else outcome (pre ++ Returned r :: post) = outcome (pre ++ post).
Proof.
  intros H. unfold outcome. rewrite (quiet_then pre post _ H).
  rewrite (run_app_state pre post).
  apply quiet_pending in H. rewrite H.
  unfold attempt.
  destruct (truthy r && truthy (get r (lit "data"))); reflexivity.
Qed.

Lemma fallback_on_truthy_data_witness :
  quiet [Main.loading] = true
  /\ outcome ([Main.loading] ++ Returned Main.payload12 :: [Deadline])
       = Some Main.export12.
Proof.
  split; [ reflexivity | ].
  apply (fallback_on_truthy_data [Main.loading] [Deadline] Main.payload12).
  reflexivity.
Defined.

(** C3, as stated, fails: the fallback fires for a completion value that
    has no [success] property at all, and for one whose [success] is
    [false]. *)
Lemma fallback_ignores_success :
  get (VObj [(lit "data", VObj [(lit "n", VNum 1)])]) (lit "success")
    = VUndefined
  /\ outcome [Returned (VObj [(lit "data", VObj [(lit "n", VNum 1)])])]
       = Some (VObj [(lit "n", VNum 1)])
  /\ outcome [Returned (VObj [(lit "success", VBool false);
                              (lit "data", VObj [])])]
       = Some (VObj []).
Proof. repeat split. Qed.

(** C4.  When no explicit result and no valid completion value comes
    before the safety timer fires, the outcome is [null]; the timer is
    armed with 30 minutes.  (Connector errors before the timer are
    allowed, as long as their [message] can be read: they give [null]
    too.) *)
Theorem deadline_gives_null (pre post : list event) :
  existsb is_signal pre = false ->
  forallb readable pre = true ->
  outcome (pre ++ Deadline :: post) = Some VNull
  /\ safety_timeout_ms = 1800000%Z.
Proof.
  intros Hs Hr. split; [ | reflexivity ].
  unfold outcome. rewrite run_app_state.
  change (Deadline :: post) with ([Deadline] ++ post).
  rewrite (run_app_state [Deadline] post).
  change (state (run [Deadline])) with (Fulfilled VNull).
  rewrite run_state.
  destruct (first_fire pre) as [e | ] eqn:E; [ | reflexivity ].
  destruct (first_fire_fires pre e E) as (p & Ha & Hin).
  rewrite Ha.
  destruct e as [key value | r | err | ].
  - exfalso. assert (X : existsb is_signal pre = true).
    { apply existsb_exists. exists (SetData key value). split; [ exact Hin | ].
      unfold is_signal, fires. rewrite Ha. reflexivity. }
    congruence.
  - exfalso. assert (X : existsb is_signal pre = true).
    { apply existsb_exists. exists (Returned r). split; [ exact Hin | ].
      unfold is_signal, fires. rewrite Ha. reflexivity. }
    congruence.
  - injection Ha as <-.
    rewrite forallb_forall in Hr. specialize (Hr _ Hin). unfold readable in Hr.
    destruct (message_of err); [ reflexivity | discriminate ].
  - injection Ha as <-. reflexivity.
Qed.

Lemma deadline_gives_null_witness :
  existsb is_signal
    [Main.loading; Returned (VObj [(lit "success", VBool true)])] = false
  /\ forallb readable
       [Main.loading; Returned (VObj [(lit "success", VBool true)])] = true
  /\ outcome ([Main.loading; Returned (VObj [(lit "success", VBool true)])]
                ++ Deadline :: [SetData Main.result_key Main.payload12])
       = Some VNull.
Proof.
  split; [ reflexivity | split; [ reflexivity | ] ].
  apply (deadline_gives_null
           [Main.loading; Returned (VObj [(lit "success", VBool true)])]
           [SetData Main.result_key Main.payload12]); reflexivity.
Defined.

End CoordinatorProps.

(* ================================================================== *)
(** * Properties of the main function *)
(* ================================================================== *)

Section MainProps.

Import Coordinator Main.

Variable cwd : jstr.
Variable path_join : jstr -> jstr -> jstr.

Local Abbreviation harness := (Main.harness cwd path_join).
Local Abbreviation finish := (Main.finish cwd path_join).
Local Abbreviation outputPath := (Main.outputPath cwd path_join).

(** [JSON.stringify(v, null, 2)] is a string for every truthy value. *)
Lemma stringify_pretty_truthy (v : value) :
  truthy v = true -> exists text, stringify_pretty v = Some text.
Proof.
  intros H. unfold stringify_pretty.
  destruct v as [ | | [ | ] | n | s | items | props ];
    try discriminate;
    try (apply serialize_object; reflexivity);
    cbn [serialize]; eauto.
Qed.

Lemma finish_falsy (before : list entry) (v : value) :
  truthy v = false ->
  finish before v = Exited (Report v (before ++ [no_result_line]) true None 1).
Proof. intros H. unfold Main.finish. rewrite H. reflexivity. Qed.


(** An error whose [message] can be read (every [Error] object, every
    value other than [null] and [undefined]), raised before anything has
    settled the result promise, is caught: the main function logs it,
    takes [null] for the result, closes the session, logs that no result
    was captured, writes no file and exits with code 1. *)
Lemma connector_error_is_downgraded
    (pre post : list event) (err : thrown) (message : value) :
  quiet pre = true ->
  message_of err = Some message ->
  outcome (pre ++ Threw err :: post) = Some VNull
  /\ harness (pre ++ Threw err :: post)
       = Exited (Report VNull [threw_line message; no_result_line]
                   true None 1).
Proof.
  intros Hq Hm.
  pose proof (quiet_then pre post (Threw err) Hq) as Hs. cbn [attempt] in Hs.
  unfold outcome, Main.harness. rewrite Hs, Hm.
  split; reflexivity.
Qed.

(** C8, where the code departs from it.  When the connector rejects with
    [null] or [undefined] before anything has settled the result promise
    ([Promise.reject()], [throw undefined]), the [catch] block itself
    raises on [err.message]: [result] is never set, and a TypeError
    escapes the main function where it stood, ahead of
    [context.close()], with nothing logged. *)
Theorem nullish_rejection_escapes
    (pre post : list event) (v : value) :
  quiet pre = true ->
  nullish v = true ->
  message_of (Thrown v) = None
  /\ outcome (pre ++ Threw (Thrown v) :: post) = None
  /\ harness (pre ++ Threw (Thrown v) :: post) = Uncaught [].
Proof.
  intros Hq Hv.
  pose proof (quiet_then pre post (Threw (Thrown v)) Hq) as Hs.
  cbn [attempt] in Hs.
  unfold outcome, Main.harness. rewrite Hs. cbn [message_of]. rewrite Hv.
  repeat split.
Qed.


(** C10.  When the first settlement is a [setData('result', V)] with a
    falsy [V] ([0], the empty string, [false], [undefined]; [null] too),
    the main function logs that no result was captured, writes no file
    and exits with code 1: what it does for the [null] of the safety
    timer. *)
Theorem falsy_result_counts_as_none (pre post : list event) (V : value) :
  quiet pre = true ->
  truthy V = false ->
  outcome (pre ++ SetData result_key V :: post) = Some V
  /\ harness (pre ++ SetData result_key V :: post)
       = Exited (Report V [no_result_line] true None 1)
  /\ harness (pre ++ Deadline :: post)
       = Exited (Report VNull [no_result_line] true None 1).
Proof.
  intros Hq Hv.
  pose proof (quiet_then pre post (SetData result_key V) Hq) as Hs.
  rewrite attempt_result in Hs.
  pose proof (quiet_then pre post Deadline Hq) as Hd. cbn [attempt] in Hd.
  unfold outcome, Main.harness. rewrite Hs, Hd.
  split; [ reflexivity | ].
  split; [ apply (finish_falsy [] V Hv) | reflexivity ].
Qed.

End MainProps.

(** Scenario B: the connector throws [Error("boom")] before it emits
    anything. *)
Lemma connector_error_is_downgraded_witness :
  Coordinator.quiet [] = true
  /\ Coordinator.message_of Main.boom = Some (VStr (lit "boom"))
  /\ Main.harness Main.home Main.posix_join
       ([] ++ Coordinator.Threw Main.boom :: [Coordinator.Deadline])
     = Main.Exited
         (Main.Report VNull
            [Main.threw_line (VStr (lit "boom")); Main.no_result_line]
            true None 1).
Proof.
  split; [ reflexivity | split; [ reflexivity | ] ].
  apply (connector_error_is_downgraded Main.home Main.posix_join
           [] [Coordinator.Deadline] Main.boom (VStr (lit "boom")));
    reflexivity.
Defined.



Lemma falsy_result_counts_as_none_witness :
  Coordinator.quiet [Main.loading] = true
  /\ truthy (VStr []) = false
  /\ Main.harness Main.home Main.posix_join
       ([Main.loading]
          ++ Coordinator.SetData Main.result_key (VStr [])
               :: [Coordinator.Returned Main.payload12])
     = Main.Exited (Main.Report (VStr []) [Main.no_result_line] true None 1).
Proof.
  split; [ reflexivity | split; [ reflexivity | ] ].
  apply (falsy_result_counts_as_none Main.home Main.posix_join
           [Main.loading] [Coordinator.Returned Main.payload12] (VStr []));
    reflexivity.
Defined.

(** The file of scenario A. *)
Example scenario_A_file :
  exists r text,
    Main.harness Main.home Main.posix_join
      [Main.loading; Coordinator.SetData Main.result_key Main.payload12]
      = Main.Exited r
    /\ Main.file r
         = Some (lit "/home/user/connectors/youtube-export.json", text)
    /\ stringify_pretty Main.payload12 = Some text
    /\ get (get (get (Main.result r) (lit "data")) (lit "exportSummary"))
         (lit "subscriptions") = VNum 12.
Proof. do 2 eexists. repeat split. Qed.

Lemma nullish_rejection_escapes_witness :
  Coordinator.quiet [Main.loading] = true
  /\ nullish VUndefined = true
  /\ Main.harness Main.home Main.posix_join
       ([Main.loading]
          ++ Coordinator.Threw (Coordinator.Thrown VUndefined)
               :: [Coordinator.Deadline])
     = Main.Uncaught [].
Proof.
  split; [ reflexivity | split; [ reflexivity | ] ].
  apply (nullish_rejection_escapes Main.home Main.posix_join
           [Main.loading] [Coordinator.Deadline] VUndefined);
    reflexivity.
Defined.

(** The shortest such run: the connector's promise rejects with
    [undefined] and nothing else happens. *)
Example nullish_error_escapes :
  Main.harness Main.home Main.posix_join
    [Coordinator.Threw (Coordinator.Thrown VUndefined)]
  = Main.Uncaught [].
Proof. reflexivity. Qed.

(* ================================================================== *)
(** * More on the interaction gate *)
(* ================================================================== *)

Section GateMore.

Import Shim.
Local Open Scope nat_scope.

Variable intervalMs : Z.

Local Abbreviation gstep := (gate_step intervalMs).
Local Abbreviation grun := (gate_run intervalMs).
Local Abbreviation gate_from := (Shim.gate_from intervalMs).

Lemma gate_from_app (g : gate) (t u : list gate_event) :
  gate_from g (t ++ u) = gate_from (gate_from g t) u.
Proof. unfold Shim.gate_from. apply fold_left_app. Qed.

(** On a settled gate an event starts neither a call nor a timer. *)
Lemma settled_step_idle (g : gate) (e : gate_event) :
  gate_inv g -> settled g <> None ->
  calls (gstep g e) = calls g
  /\ (loop (gstep g e) = loop g \/ loop (gstep g e) = Stopped).
Proof.
  destruct g as [d s r c l p]. unfold gate_inv. cbn.
  destruct s as [w | ]; [ | congruence ]. intros [-> ->] _.
  destruct e as [ | [ | | ] | ]; destruct l, p; cbn; auto.
Qed.

Lemma settled_from_idle (u : list gate_event) (g : gate) :
  gate_inv g -> settled g <> None ->
  calls (gate_from g u) = calls g
  /\ (loop (gate_from g u) = loop g \/ loop (gate_from g u) = Stopped).
Proof.
  revert g. induction u as [ | e u IH]; intros g Hi Hs; [ auto | ].
  change (gate_from g (e :: u)) with (gate_from (gstep g e) u).
  destruct (settled_step_idle g e Hi Hs) as [Hc Hl].
  assert (Hs' : settled (gstep g e) <> None).
  { destruct (settled g) as [w | ] eqn:E; [ | congruence ].
    rewrite (settled_step intervalMs g e w E). discriminate. }
  destruct (IH _ (gate_inv_step intervalMs g e Hi) Hs') as [Hc' Hl'].
  split; [ congruence | ].
  destruct Hl as [Hl | Hl]; rewrite Hl in Hl'; tauto.
Qed.

(** X1.  Once the gate is resolved the predicate is never called again
    and no new timer is armed: whatever comes next, the number of calls
    stays what it was, and the poll loop stays where it was or ends. *)
Theorem gate_idle_after_resolution (t u : list gate_event) :
  settled (grun t) <> None ->
  calls (grun (t ++ u)) = calls (grun t)
  /\ (loop (grun (t ++ u)) = loop (grun t)
      \/ loop (grun (t ++ u)) = Stopped).
Proof.
  intros H. unfold gate_run. rewrite gate_from_app.
  apply settled_from_idle; [ apply gate_inv_run | exact H ].
Qed.

Lemma listening_from (t : list gate_event) (g : gate) :
  listening (gate_from g t) = listening g && negb (has_enter t).
Proof.
  revert g. induction t as [ | e t IH]; intros g.
  - cbn. rewrite andb_true_r. reflexivity.
  - change (gate_from g (e :: t)) with (gate_from (gstep g e) t).
    rewrite IH. destruct g as [d s r c l p].
    destruct e as [ | [ | | ] | ]; destruct l, p, d, s; cbn;
      rewrite ?andb_false_r; reflexivity.
Qed.

(** X2.  Only the first line on standard input is heard: a later one
    leaves the gate exactly as it is, whatever its state. *)
Theorem gate_second_enter_inert (t u : list gate_event) :
  has_enter t = true ->
  grun (t ++ Enter :: u) = grun (t ++ u).
Proof.
  intros H. unfold gate_run. rewrite !gate_from_app.
  change (gate_from (gate_from gate_start t) (Enter :: u))
    with (gate_from (gstep (gate_from gate_start t) Enter) u).
  assert (L : listening (gate_from gate_start t) = false).
  { rewrite listening_from, H. apply andb_false_r. }
  unfold gate_step. rewrite L. reflexivity.
Qed.

Lemma calls_from (t : list gate_event) (g : gate) :
  calls g <= calls (gate_from g t) <= calls g + ticks t.
Proof.
  revert g. induction t as [ | e t IH]; intros g.
  - cbn. lia.
  - change (gate_from g (e :: t)) with (gate_from (gstep g e) t).
    specialize (IH (gstep g e)).
    assert (calls g <= calls (gstep g e)
            <= calls g + ticks [e]) as Hstep.
    { destruct g as [d s r c l p].
      destruct e as [ | [ | | ] | ]; destruct l, p, d, s; cbn; lia. }
    assert (ticks (e :: t) = ticks [e] + ticks t) as ->.
    { unfold ticks. destruct e; cbn; reflexivity. }
    lia.
Qed.

(** X3.  The predicate is called once when the gate starts and then at
    most once per firing of the timer. *)
Theorem gate_calls_bounded (t : list gate_event) :
  1 <= calls (grun t) <= 1 + ticks t.
Proof.
  unfold gate_run. pose proof (calls_from t gate_start) as H.
  change (calls gate_start) with 1 in H. exact H.
Qed.

Lemma never_truthy_from (t : list gate_event) (g : gate) :
  gate_inv g -> never_truthy t = true ->
  settled (gate_from g t)
    = match settled g with
      | Some w => Some w
      | None => if has_enter t then Some ByEnter else None
      end.
Proof.
  revert g. induction t as [ | e t IH]; intros g Hi Ha.
  - cbn. destruct (settled g); reflexivity.
  - cbn in Ha. apply andb_true_iff in Ha as [He Ha].
    change (gate_from g (e :: t)) with (gate_from (gstep g e) t).
    rewrite (IH _ (gate_inv_step intervalMs g e Hi) Ha).
    destruct (settled g) as [w | ] eqn:Hs.
    + rewrite (settled_step intervalMs g e w Hs). reflexivity.
    + rewrite (pending_step intervalMs g e Hi Hs).
      destruct e as [ | [ | | ] | ]; try discriminate; cbn;
        try reflexivity; destruct (loop g); reflexivity.
Qed.

(** X4.  The gate has no timeout of its own: as long as the predicate is
    never truthy (falsy answers and failures alike), the gate is resolved
    exactly when a line was entered, however many polls went by. *)
Theorem gate_waits_for_enter (t : list gate_event) :
  never_truthy t = true ->
  settled (grun t) = (if has_enter t then Some ByEnter else None).
Proof.
  intros H. unfold gate_run.
  rewrite (never_truthy_from t gate_start (gate_inv_start) H). reflexivity.
Qed.

Lemma waits_interval_from (t : list gate_event) (g : gate) :
  waits_interval intervalMs g -> waits_interval intervalMs (gate_from g t).
Proof.
  revert g. induction t as [ | e t IH]; intros g H; [ exact H | ].
  change (gate_from g (e :: t)) with (gate_from (gstep g e) t).
  apply IH. destruct g as [d s r c l p]. unfold waits_interval in *.
  destruct e as [ | [ | | ] | ]; destruct l, p, d, s; cbn in *;
    auto.
Qed.

(** X5.  Every wait between two polls is armed with the [intervalMs]
    the gate was given, at every point of every run. *)
Theorem gate_waits_interval (t : list gate_event) (d : Z) :
  loop (grun t) = Sleeping d -> d = intervalMs.
Proof.
  intros H. pose proof (waits_interval_from t gate_start I) as W.
  unfold waits_interval in W. fold (grun t) in W. rewrite H in W. exact W.
Qed.

End GateMore.

Lemma gate_idle_after_resolution_witness :
  Shim.settled (Shim.gate_run 2000 [Shim.Enter]) <> None
  /\ Shim.calls (Shim.gate_run 2000
       ([Shim.Enter] ++ [Shim.Answer Shim.Falsy; Shim.Tick; Shim.Tick]))
     = Shim.calls (Shim.gate_run 2000 [Shim.Enter]).
Proof.
  split; [ discriminate | ].
  apply (gate_idle_after_resolution 2000 [Shim.Enter]
           [Shim.Answer Shim.Falsy; Shim.Tick; Shim.Tick]).
  discriminate.
Defined.

Lemma gate_second_enter_inert_witness :
  Shim.has_enter [Shim.Answer Shim.Falsy; Shim.Enter] = true
  /\ Shim.gate_run 2000
       ([Shim.Answer Shim.Falsy; Shim.Enter] ++ Shim.Enter :: [Shim.Tick])
     = Shim.gate_run 2000
         ([Shim.Answer Shim.Falsy; Shim.Enter] ++ [Shim.Tick]).
Proof.
  split; [ reflexivity | ].
  apply (gate_second_enter_inert 2000
           [Shim.Answer Shim.Falsy; Shim.Enter] [Shim.Tick]).
  reflexivity.
Defined.

Lemma gate_waits_for_enter_witness :
  Shim.never_truthy
    [Shim.Answer Shim.Falsy; Shim.Tick; Shim.Answer Shim.Raises; Shim.Tick;
     Shim.Answer Shim.Falsy] = true
  /\ Shim.settled (Shim.gate_run 50
       [Shim.Answer Shim.Falsy; Shim.Tick; Shim.Answer Shim.Raises; Shim.Tick;
        Shim.Answer Shim.Falsy]) = None.
Proof.
  split; [ reflexivity | ].
  apply (gate_waits_for_enter 50
           [Shim.Answer Shim.Falsy; Shim.Tick; Shim.Answer Shim.Raises;
            Shim.Tick; Shim.Answer Shim.Falsy]).
  reflexivity.
Defined.

Lemma gate_waits_interval_witness :
  Shim.loop (Shim.gate_run 50 [Shim.Answer Shim.Falsy]) = Shim.Sleeping 50
  /\ 50%Z = 50%Z.
Proof.
  split; [ reflexivity | ].
  apply (gate_waits_interval 50 [Shim.Answer Shim.Falsy] 50).
  reflexivity.
Defined.

(* ================================================================== *)
(** * More on the result capture promise and the main function *)
(* ================================================================== *)

Section PromiseMore.

Import Coordinator Main.

Lemma step_console (c : coordinator) (e : event) :
  console (step c e) = console c ++ event_lines e.
Proof.
  destruct c as [s l].
  destruct e as [key value | r | err | ]; unfold step, event_lines.
  - unfold Coordinator.setData.
    destruct (Shim.setData key value) as [line | ]; cbn.
    + destruct (is_result_key key); [ | reflexivity ].
      unfold resolve. cbn. destruct s; reflexivity.
    + rewrite app_nil_r. reflexivity.
  - unfold on_return, resolve.
    destruct (truthy r && truthy (get r (lit "data"))); cbn;
      rewrite app_nil_r; [ destruct s | ]; reflexivity.
  - unfold reject. cbn. rewrite app_nil_r. destruct s; reflexivity.
  - unfold on_timeout, resolve. cbn. rewrite app_nil_r.
    destruct s; reflexivity.
Qed.

Lemma run_from_console (t : list event) (c : coordinator) :
  console (run_from c t) = console c ++ flat_map event_lines t.
Proof.
  revert c. induction t as [ | e t IH]; intros c.
  - cbn. rewrite app_nil_r. reflexivity.
  - change (run_from c (e :: t)) with (run_from (step c e) t).
    rewrite IH, step_console. cbn [flat_map]. rewrite app_assoc. reflexivity.
Qed.

(** X6.  Capturing the result never silences the log: every [setData]
    call of a run leaves its line on the console, in call order, whether
    the promise was pending or already settled when it came, and nothing
    else the promise reacts to writes a line. *)
Theorem every_emission_is_logged (t : list event) :
  console (run t) = flat_map event_lines t.
Proof. unfold run. rewrite run_from_console. reflexivity. Qed.

Lemma jstr_eqb_eq (a b : jstr) : jstr_eqb a b = true <-> a = b.
Proof.
  revert b. induction a as [ | x a IH]; intros [ | y b]; cbn;
    try (split; [ discriminate | congruence ]); [ tauto | ].
  rewrite andb_true_iff, N.eqb_eq, IH.
  split; [ intros [-> ->]; reflexivity | intros [= -> ->]; auto ].
Qed.

Lemma is_result_key_eq (key : value) :
  is_result_key key = true <-> key = result_key.
Proof.
  unfold result_key.
  destruct key; cbn; try (split; [ discriminate | congruence ]).
  rewrite jstr_eqb_eq. split; [ intros -> | intros [= ->] ]; reflexivity.
Qed.

(** X7.  A [setData] call settles a pending promise exactly when its key
    is the string ['result'], exactly that string: any other key, of any
    type, only logs. *)
Theorem only_result_key_settles
    (pre : list event) (key value : value) :
  quiet pre = true ->
  (state (run (pre ++ [SetData key value])) = Fulfilled value
   <-> key = result_key)
  /\ (state (run (pre ++ [SetData key value])) = Pending
      <-> key <> result_key).
Proof.
  intros H. rewrite (quiet_then pre [] _ H).
  unfold attempt. destruct (setData_total key value) as [line ->].
  rewrite <- is_result_key_eq.
  destruct (is_result_key key); cbn; split; split;
    congruence || discriminate || auto.
Qed.

End PromiseMore.

Section MainMore.

Import Coordinator Main.

Variable cwd : jstr.
Variable path_join : jstr -> jstr -> jstr.

Local Abbreviation harness := (Main.harness cwd path_join).
Local Abbreviation finish := (Main.finish cwd path_join).
Local Abbreviation outputPath := (Main.outputPath cwd path_join).


(** X9.  The main function stays suspended at its [await] exactly when
    no event of the run asks for a settlement; in particular it cannot
    stay suspended once the safety timer has fired. *)
Theorem harness_waits_iff_quiet (t : list event) :
  (harness t = Waiting <-> quiet t = true)
  /\ (In Deadline t -> harness t <> Waiting).
Proof.
  assert (W : harness t = Waiting <-> quiet t = true).
  { rewrite quiet_pending. unfold Main.harness.
    destruct (state (run t)) as [ | v | err ] eqn:E.
    - tauto.
    - split; [ | discriminate ]. unfold Main.finish.
      destruct (negb (truthy v)); [ discriminate | ].
      destruct (stringify_pretty v); discriminate.
    - split; [ | discriminate ].
      destruct (message_of err); [ | discriminate ].
      unfold Main.finish. cbn. discriminate. }
  split; [ exact W | ].
  intros Hin Hw. apply W in Hw. unfold quiet in Hw.
  rewrite forallb_forall in Hw. specialize (Hw _ Hin). discriminate.
Qed.

(** X11.  A captured result without a truthy [exportSummary] is written
    all the same; every line of the summary then reads [n/a]. *)
Theorem summary_without_exportSummary (before : list entry) (v : value) :
  truthy v = true ->
  truthy (get v (lit "exportSummary")) = false ->
  exists text,
    stringify_pretty v = Some text
    /\ finish before v
       = Exited
           (Report v
              (before ++ na_block
                 ++ [console_log (lit "[harness] Output written to: "
                                    ++ outputPath)])
              true (Some (outputPath, text)) 0).
Proof.
  intros T S.
  destruct (stringify_pretty_truthy v T) as [text Ht].
  exists text. split; [ exact Ht | ].
  unfold Main.finish, or_else. rewrite T, S, Ht. reflexivity.
Qed.

End MainMore.

Lemma only_result_key_settles_witness :
  Coordinator.quiet [Main.loading] = true
  /\ Coordinator.state
       (Coordinator.run
          ([Main.loading] ++ [Coordinator.SetData (VStr (lit "Result")) VNull]))
     = Coordinator.Pending.
Proof.
  split; [ reflexivity | ].
  apply (only_result_key_settles [Main.loading] (VStr (lit "Result")) VNull).
  - reflexivity.
  - discriminate.
Defined.


Lemma summary_without_exportSummary_witness :
  truthy (VArr []) = true
  /\ truthy (get (VArr []) (lit "exportSummary")) = false
  /\ exists r,
       Main.finish Main.home Main.posix_join [] (VArr []) = Main.Exited r
       /\ Main.file r
          = Some (lit "/home/user/connectors/youtube-export.json", lit "[]").
Proof.
  split; [ reflexivity | split; [ reflexivity | ] ].
  destruct (summary_without_exportSummary Main.home Main.posix_join
              [] (VArr []) eq_refl eq_refl) as (text & Ht & H).
  eexists. split; [ exact H | ].
  cbn [Main.file]. injection Ht as <-. reflexivity.
Defined.

(* ================================================================== *)
(** * Properties of [setProgress] *)
(* ================================================================== *)

Section ProgressProps.

Import Shim.
Local Open Scope N_scope.





(** X13.  An event with no phase, no message and no count gives the bare
    line [[progress]]: the blanks of the template are trimmed away. *)
Theorem setProgress_empty (obj : value) :
  nullish obj = false ->
  truthy (get obj (lit "phase")) = false ->
  truthy (get obj (lit "message")) = false ->
  nullish (get obj (lit "count")) = true ->
  setProgress obj = Some (console_log (lit "[progress]")).
Proof.
  intros H P M C.
  unfold setProgress, progress_text, progress_phase, progress_count, or_else.
  rewrite H, P, M, C. reflexivity.
Qed.


End ProgressProps.


Lemma setProgress_empty_witness :
  nullish (VObj []) = false
  /\ truthy (get (VObj []) (lit "phase")) = false
  /\ truthy (get (VObj []) (lit "message")) = false
  /\ nullish (get (VObj []) (lit "count")) = true
  /\ Shim.setProgress (VObj []) = Some (console_log (lit "[progress]")).
Proof.
  repeat (split; [ reflexivity | ]).
  apply (setProgress_empty (VObj [])); reflexivity.
Defined.


(** A full event: phase, message and count. *)
Example setProgress_full :
  Shim.setProgress
    (VObj [(lit "phase", VObj [(lit "step", VNum 2); (lit "total", VNum 5);
                               (lit "label", VStr (lit "Playlists"))]);
           (lit "message", VStr (lit "fetching"));
           (lit "count", VNum 40)])
  = Some (console_log (lit "[progress] [2/5] Playlists fetching (count: 40)")).
Proof. reflexivity. Qed.

(* ================================================================== *)
(** * The exit code and the output file *)
(* ================================================================== *)

Section ExitProps.

Import Coordinator Main.

Variable cwd : jstr.
Variable path_join : jstr -> jstr -> jstr.

Local Abbreviation harness := (Main.harness cwd path_join).
Local Abbreviation finish := (Main.finish cwd path_join).
Local Abbreviation outputPath := (Main.outputPath cwd path_join).

Lemma finish_report (before : list entry) (v : value) (r : report) :
  finish before v = Exited r ->
  session_closed r = true
  /\ ((code r = 0%Z
       /\ exists text, stringify_pretty (result r) = Some text
                       /\ file r = Some (outputPath, text))
      \/ (code r = 1%Z /\ file r = None)).
Proof.
  unfold Main.finish. destruct (truthy v); cbn [negb].
  - destruct (stringify_pretty v) as [text | ] eqn:E; [ | discriminate ].
    intros [= <-]. cbn. split; [ reflexivity | left ]. eauto.
  - intros [= <-]. cbn. split; [ reflexivity | right ]. auto.
Qed.

(** X15.  However a run ends, if the process exits on its own account
    then the session has been closed and the exit code tells whether the
    output file exists: code 0 comes with the file, holding the JSON text
    of the result, and code 1 comes with no file; there is no third
    case. *)
Theorem exit_code_tells_file (t : list event) (r : report) :
  harness t = Exited r ->
  session_closed r = true
  /\ ((code r = 0%Z
       /\ exists text, stringify_pretty (result r) = Some text
                       /\ file r = Some (outputPath, text))
      \/ (code r = 1%Z /\ file r = None)).
Proof.
  unfold Main.harness. destruct (state (run t)) as [ | v | err ].
  - discriminate.
  - apply finish_report.
  - destruct (message_of err) as [m | ]; [ | discriminate ].
    apply finish_report.
Qed.

End ExitProps.

Lemma exit_code_tells_file_witness :
  Main.harness Main.home Main.posix_join [Coordinator.Deadline]
    = Main.Exited (Main.Report VNull [Main.no_result_line] true None 1)
  /\ Main.session_closed
       (Main.Report VNull [Main.no_result_line] true None 1) = true.
Proof.
  split; [ reflexivity | ].
  apply (exit_code_tells_file Main.home Main.posix_join
           [Coordinator.Deadline]
           (Main.Report VNull [Main.no_result_line] true None 1)).
  reflexivity.
Defined.

Lemma harness_waits_iff_quiet_witness :
  Coordinator.quiet [Main.loading] = true
  /\ Main.harness Main.home Main.posix_join [Main.loading] = Main.Waiting.
Proof.
  split; [ reflexivity | ].
  apply (proj1 (harness_waits_iff_quiet Main.home Main.posix_join
                  [Main.loading])).
  reflexivity.
Defined.
